(** * Shallow embedding of Lib/asyncio/console.py (the asyncio REPL)

    The REPL runs user statements on an asyncio event loop owned by the main
    thread, while a second thread ("Interactive thread") reads input.  The
    state shared by both threads is gathered in one record [world]:
    the fields of [AsyncIOInteractiveConsole], the store of
    [concurrent.futures.Future] objects created by [runcode], the tasks of
    the event loop, the loop's ready queue of [call_soon_threadsafe]
    handles, the output written so far and what the interactive thread is
    blocked on. *)

From Stdlib Require Import ZArith Ascii String.
From stdpp Require Import base gmap strings list.
From Stdlib Require Import Ascii.

Open Scope string_scope.

(** ** Python values and exceptions *)

(** The values a statement can produce.  A coroutine object is identified by
    a number. *)
Inductive value :=
| VNone
| VInt (z : Z)
| VStr (s : string)
| VCoro (id : nat).

Inductive exc :=
| SystemExit (code : value)
| KeyboardInterrupt
| CancelledError
| OtherError (name : string).

Definition exc_name (e : exc) : string :=
  match e with
  | SystemExit _ => "SystemExit"
  | KeyboardInterrupt => "KeyboardInterrupt"
  | CancelledError => "CancelledError"
  | OtherError n => n
  end.

(** [inspect.iscoroutine] *)
Definition iscoroutine (v : value) : bool :=
  match v with VCoro _ => true | _ => false end.

(** Calling [types.FunctionType(code, self.locals)()]: the compiled unit
    reads and mutates the namespace and either returns or raises. *)
Inductive invocation :=
| Returned (v : value)
| Raised (e : exc).

Definition namespace := gmap string value.
Definition code := namespace -> namespace * invocation.

(** ** Futures, tasks and loop handles *)

(** States of a [concurrent.futures.Future]. *)
Inductive fstate :=
| FPending
| FFinishedResult (v : value)
| FFinishedExc (e : exc)
| FCancelled.

(** States of an asyncio [Task]. *)
Inductive tstate :=
| TPending
| TResult (v : value)
| TException (e : exc)
| TCancelled.

Record task := mkTask {
  t_coro : value;
  t_context : nat;
  t_state : tstate;
  t_chained : option nat  (* destination future of [_chain_future] *)
}.

(** A handle queued by [loop.call_soon_threadsafe(callback, context=...)]:
    the [callback] closure of one [runcode] call. *)
Record handle := mkHandle {
  h_code : code;
  h_future : nat;
  h_context : nat
}.

Record world := mkW {
  locals : namespace;
  context : nat;                       (* self.context *)
  repl_future : option nat;            (* self.repl_future *)
  keyboard_interrupted : option bool;  (* self.keyboard_interrupted *)
  return_code : value;                 (* self.return_code *)
  futures : gmap nat fstate;
  tasks : gmap nat task;
  ready : list handle;
  stopped : bool;                      (* loop.stop() was requested *)
  out : list string;                   (* console.write output *)
  waiting : option nat;                (* future the interactive thread blocks on *)
  next_id : nat
}.

(** Field updates; each rebuilds the record from the projections of [w],
    so that [cbn] computes projections of an update. *)
Definition with_locals x w :=
  {| locals := x; context := context w; repl_future := repl_future w;
     keyboard_interrupted := keyboard_interrupted w; return_code := return_code w;
     futures := futures w; tasks := tasks w; ready := ready w; stopped := stopped w;
     out := out w; waiting := waiting w; next_id := next_id w |}.
Definition with_repl_future x w :=
  {| locals := locals w; context := context w; repl_future := x;
     keyboard_interrupted := keyboard_interrupted w; return_code := return_code w;
     futures := futures w; tasks := tasks w; ready := ready w; stopped := stopped w;
     out := out w; waiting := waiting w; next_id := next_id w |}.
Definition with_keyboard_interrupted x w :=
  {| locals := locals w; context := context w; repl_future := repl_future w;
     keyboard_interrupted := x; return_code := return_code w; futures := futures w;
     tasks := tasks w; ready := ready w; stopped := stopped w; out := out w;
     waiting := waiting w; next_id := next_id w |}.
Definition with_return_code x w :=
  {| locals := locals w; context := context w; repl_future := repl_future w;
     keyboard_interrupted := keyboard_interrupted w; return_code := x;
     futures := futures w; tasks := tasks w; ready := ready w; stopped := stopped w;
     out := out w; waiting := waiting w; next_id := next_id w |}.
Definition with_futures x w :=
  {| locals := locals w; context := context w; repl_future := repl_future w;
     keyboard_interrupted := keyboard_interrupted w; return_code := return_code w;
     futures := x; tasks := tasks w; ready := ready w; stopped := stopped w;
     out := out w; waiting := waiting w; next_id := next_id w |}.
Definition with_tasks x w :=
  {| locals := locals w; context := context w; repl_future := repl_future w;
     keyboard_interrupted := keyboard_interrupted w; return_code := return_code w;
     futures := futures w; tasks := x; ready := ready w; stopped := stopped w;
     out := out w; waiting := waiting w; next_id := next_id w |}.
Definition with_ready x w :=
  {| locals := locals w; context := context w; repl_future := repl_future w;
     keyboard_interrupted := keyboard_interrupted w; return_code := return_code w;
     futures := futures w; tasks := tasks w; ready := x; stopped := stopped w;
     out := out w; waiting := waiting w; next_id := next_id w |}.
Definition with_stopped x w :=
  {| locals := locals w; context := context w; repl_future := repl_future w;
     keyboard_interrupted := keyboard_interrupted w; return_code := return_code w;
     futures := futures w; tasks := tasks w; ready := ready w; stopped := x;
     out := out w; waiting := waiting w; next_id := next_id w |}.
Definition with_out x w :=
  {| locals := locals w; context := context w; repl_future := repl_future w;
     keyboard_interrupted := keyboard_interrupted w; return_code := return_code w;
     futures := futures w; tasks := tasks w; ready := ready w; stopped := stopped w;
     out := x; waiting := waiting w; next_id := next_id w |}.
Definition with_waiting x w :=
  {| locals := locals w; context := context w; repl_future := repl_future w;
     keyboard_interrupted := keyboard_interrupted w; return_code := return_code w;
     futures := futures w; tasks := tasks w; ready := ready w; stopped := stopped w;
     out := out w; waiting := x; next_id := next_id w |}.
Definition with_next_id x w :=
  {| locals := locals w; context := context w; repl_future := repl_future w;
     keyboard_interrupted := keyboard_interrupted w; return_code := return_code w;
     futures := futures w; tasks := tasks w; ready := ready w; stopped := stopped w;
     out := out w; waiting := waiting w; next_id := x |}.

Arguments with_locals x w /.
Arguments with_repl_future x w /.
Arguments with_keyboard_interrupted x w /.
Arguments with_return_code x w /.
Arguments with_futures x w /.
Arguments with_tasks x w /.
Arguments with_ready x w /.
Arguments with_stopped x w /.
Arguments with_out x w /.
Arguments with_waiting x w /.
Arguments with_next_id x w /.

(** [self.write(s)] *)
Definition write (s : string) (w : world) : world := with_out (out w ++ [s]) w.

(** [AsyncIOInteractiveConsole.__init__(locals, loop)]: [ctx] is the value
    returned by the one [contextvars.copy_context()] call. *)
Definition console_init (ns : namespace) (ctx : nat) : world :=
  mkW ns ctx None None (VInt 0) ∅ ∅ [] false [] None 0.

(** [concurrent.futures.Future.set_result] / [set_exception]: a future that
    is already finished or cancelled raises [InvalidStateError], which is
    [None] here. *)
Definition set_result (f : nat) (v : value) (w : world) : option world :=
  match futures w !! f with
  | Some FPending => Some (with_futures (<[f := FFinishedResult v]> (futures w)) w)
  | _ => None
  end.

Definition set_exception (f : nat) (e : exc) (w : world) : option world :=
  match futures w !! f with
  | Some FPending => Some (with_futures (<[f := FFinishedExc e]> (futures w)) w)
  | _ => None
  end.

(** ** The event loop's side: tasks and [_chain_future] *)

Definition task_is_done (tk : task) : bool :=
  match t_state tk with TPending => false | _ => true end.

Definition fstate_of (r : tstate) : fstate :=
  match r with
  | TPending => FPending
  | TResult v => FFinishedResult v
  | TException e => FFinishedExc e
  | TCancelled => FCancelled
  end.

(** Modelled from the spec: [asyncio.futures._chain_future] and its
    [_set_concurrent_future_state] (Lib/asyncio/futures.py is not part of
    the sources at hand).  When the task is done its state is copied into
    the concurrent future: a pending future takes the task's outcome, a
    cancelled one is left alone ([set_running_or_notify_cancel] returns
    False), and a finished one raises ([None]). *)
Definition copy_state (f : nat) (r : tstate) (w : world) : option world :=
  match futures w !! f with
  | Some FPending => Some (with_futures (<[f := fstate_of r]> (futures w)) w)
  | Some FCancelled => Some w
  | _ => None
  end.

(** Modelled from the spec: completion of a task by the scheduler ("a
    handle that can be cancelled and that reports completion (value or
    error) exactly once").  A pending task takes its final state [r]; the
    done callback installed by [_chain_future] then settles the chained
    future.  Only pending tasks complete. *)
Definition task_finish (t : nat) (r : tstate) (w : world) : option world :=
  match tasks w !! t with
  | Some tk =>
      match t_state tk with
      | TPending =>
          let w1 := with_tasks (<[t := mkTask (t_coro tk) (t_context tk) r (t_chained tk)]>
                                 (tasks w)) w in
          match t_chained tk with
          | Some f => copy_state f r w1
          | None => Some w1
          end
      | _ => None
      end
  | None => None
  end.

(** Modelled from the spec: [Task.cancel()] on a task that is not done
    ("cancel that task (which resolves the future with a cancellation error
    per 4.3)"): the task ends cancelled and the chained future follows. *)
Definition task_cancel (t : nat) (w : world) : option world :=
  task_finish t TCancelled w.

(** [futures._chain_future(self.repl_future, future)]: registers the done
    callback, i.e. records the destination future of the task. *)
Definition chain_future (t f : nat) (w : world) : world :=
  match tasks w !! t with
  | Some tk => with_tasks (<[t := mkTask (t_coro tk) (t_context tk) (t_state tk) (Some f)]>
                            (tasks w)) w
  | None => w
  end.

(** [self.loop.create_task(coro, context=self.context)]: a fresh pending
    task running in the given context. *)
Definition create_task (coro : value) (ctx : nat) (w : world) : nat * world :=
  let t := next_id w in
  (t, with_next_id (S t) (with_tasks (<[t := mkTask coro ctx TPending None]> (tasks w)) w)).

(** How the [try] block around [create_task]/[_chain_future] ends: both
    calls succeed, [create_task] raises, or [_chain_future] raises after
    the task has been stored in [self.repl_future]. *)
Inductive spawn_outcome :=
| SpawnOk
| CreateTaskRaises (e : exc)
| ChainRaises (e : exc).

(** ** [AsyncIOInteractiveConsole.runcode] *)

(** The nested [callback()] of [runcode], run on the loop thread. *)
Definition callback (c : code) (f : nat) (so : spawn_outcome) (w : world) : option world :=
  let '(ns, r) := c (locals w) in
  let w := with_locals ns w in
  match r with
  | Raised (SystemExit code) =>
      (* self.return_code = se.code; self.loop.stop(); return *)
      Some (with_stopped true (with_return_code code w))
  | Raised KeyboardInterrupt =>
      set_exception f KeyboardInterrupt (with_keyboard_interrupted (Some true) w)
  | Raised e => set_exception f e w
  | Returned coro =>
      if negb (iscoroutine coro) then set_result f coro w
      else
        match so with
        | CreateTaskRaises e => set_exception f e w
        | SpawnOk =>
            let '(t, w1) := create_task coro (context w) w in
            Some (chain_future t f (with_repl_future (Some t) w1))
        | ChainRaises e =>
            let '(t, w1) := create_task coro (context w) w in
            set_exception f e (with_repl_future (Some t) w1)
        end
  end.

(** First half of [runcode] on the interactive thread: create the future,
    [call_soon_threadsafe(callback, context=self.context)], then block on
    [future.result()]. *)
Definition runcode_submit (c : code) (w : world) : world :=
  let f := next_id w in
  with_waiting (Some f)
    (with_ready (ready w ++ [mkHandle c f (context w)])
       (with_futures (<[f := FPending]> (futures w)) (with_next_id (S f) w))).

(** The loop runs the oldest ready handle. *)
Definition run_once (so : spawn_outcome) (w : world) : option world :=
  match ready w with
  | [] => None
  | h :: q => callback (h_code h) (h_future h) so (with_ready q w)
  end.

Definition traceback (e : exc) : string :=
  "Traceback (most recent call last):" ++ exc_name e.

Definition interrupt_notice : string := "
KeyboardInterrupt
".

(** Truth value of [self.keyboard_interrupted] (None or True). *)
Definition truthy (b : option bool) : bool :=
  match b with Some true => true | _ => false end.

(** The [except] clauses after [future.result()]. *)
Definition runcode_except (e : exc) (w : world) : world :=
  match e with
  | SystemExit code => with_stopped true (with_return_code code w)
  | _ => if truthy (keyboard_interrupted w) then write interrupt_notice w
         else write (traceback e) w
  end.

(** Second half of [runcode]: [future.result()] returns once the future is
    no longer pending ([None] while it still blocks).  The result is the
    value [runcode] returns. *)
Definition runcode_resume (w : world) : option (world * option value) :=
  match waiting w with
  | None => None
  | Some f =>
      match futures w !! f with
      | Some (FFinishedResult v) => Some (with_waiting None w, Some v)
      | Some (FFinishedExc e) => Some (runcode_except e (with_waiting None w), None)
      | Some FCancelled => Some (runcode_except CancelledError (with_waiting None w), None)
      | _ => None
      end
  end.

(** ** The driver loop of [interact] *)

(** [except KeyboardInterrupt] around [console.loop.run_forever()]:
    set the flag and cancel [repl_future] when it is not done.
    [repl_thread.interrupt()] only wakes the pyrepl reader and touches none
    of the state modelled here. *)
Definition on_driver_interrupt (w : world) : option world :=
  let w := with_keyboard_interrupted (Some true) w in
  match repl_future w with
  | Some t =>
      match tasks w !! t with
      | Some tk => if negb (task_is_done tk) then task_cancel t w else Some w
      | None => Some w
      end
  | None => Some w
  end.

(** ** [REPLThread.run] *)

(** The double quote character. *)
Definition dq : string := String "034"%char EmptyString.

(** The banner written when [banner is None]. *)
Definition default_banner (version platform : string) : string :=
  "asyncio REPL " ++ version ++ " on " ++ platform ++ "
" ++ "Use " ++ dq ++ "await" ++ dq ++ " directly instead of " ++ dq ++ "asyncio.run()"
  ++ dq ++ ".
" ++ "Type " ++ dq ++ "help" ++ dq ++ ", " ++ dq ++ "copyright" ++ dq ++ ", " ++ dq
  ++ "credits" ++ dq ++ " or " ++ dq ++ "license" ++ dq ++ " for more information.
".

(** How the interactive loop called by [run] ends: it returns (end of
    input), it raises [SystemExit] (the [exit]/[quit] commands of pyrepl),
    or it raises anything else. *)
Inductive loop_exit :=
| LoopReturns
| LoopSystemExit
| LoopRaises (e : exc).

(** The [PYTHONSTARTUP] block of [REPLThread.run]: with no startup path
    nothing happens; otherwise the script is opened, compiled and run by
    [exec(startup_code, self.console.locals)], modelled as a unit of code
    run on the namespace.  A missing or invalid file, or a script that
    raises, is a unit that raises (before or after changing the namespace).
    The flag tells whether [run] goes on ([true]) or leaves through its
    [finally] clause ([false]). *)
Definition run_startup (startup : option code) (w : world) : world * bool :=
  match startup with
  | None => (w, true)
  | Some sc =>
      let '(ns, r) := sc (locals w) in
      (with_locals ns w, match r with Returned _ => true | Raised _ => false end)
  end.

(** [REPLThread.run]: banner, [PYTHONSTARTUP] script, prompt echo, the
    interactive loop (pyrepl's [run_multiline_interactive_console] or the
    basic [self.console.interact(banner="", exitmsg="")], whose own output
    is not modelled), and in [finally] [call_soon_threadsafe(self.loop.stop)].
    An exception out of the startup script skips the rest of the [try]
    block. *)
Definition repl_thread_run (can_use_pyrepl : bool) (banner : option string)
    (startup : option code) (version platform ps1 : string) (le : loop_exit)
    (w : world) : world :=
  let banner := match banner with None => default_banner version platform | Some b => b end in
  let w := write banner w in
  let '(w, ok) := run_startup startup w in
  let w :=
    if ok then
      let w := write (ps1 ++ "import asyncio
") w in
      if can_use_pyrepl then
        match le with
        | LoopReturns => w
        | LoopSystemExit => w  (* expected via the `exit` and `quit` commands *)
        | LoopRaises e =>      (* unexpected issue *)
            with_return_code (VInt 1) (write "Internal error, " (write (traceback e) w))
        end
      else w  (* an exception of the basic loop leaves [run] through [finally] *)
    else w
  in
  with_stopped true w.

(** ** End of [interact] *)

Definition default_exitmsg : string := "exiting asyncio REPL...
".

(** [exitmsg or 'exiting asyncio REPL...\n'] for [exitmsg] None or a str. *)
Definition exit_text (exitmsg : option string) : string :=
  match exitmsg with
  | Some m => if String.eqb m "" then default_exitmsg else m
  | None => default_exitmsg
  end.

(** After [run_forever] returned normally: [console.write(...)] and
    [sys.exit(console.return_code)].  The result is the output written and
    the argument of [sys.exit]. *)
Definition interact_finish (exitmsg : option string) (w : world) : list string * value :=
  (out (write (exit_text exitmsg) w), return_code w).

(** ** The namespace built by [interact] *)

(** The keys [interact] copies from the module's [globals()]. *)
Definition module_keys : list string :=
  ["__name__"; "__package__"; "__loader__"; "__spec__"; "__builtins__"; "__file__"].

(** [repl_locals = {'asyncio': asyncio}], then
    [repl_locals[key] = globals()[key]] for each of [module_keys], then
    [repl_locals.update(local)] when [local is not None].  The module
    object and the module's globals are opaque values here. *)
Definition interact_locals (asyncio_module : value) (module_globals : string -> value)
    (local : option namespace) : namespace :=
  let repl_locals :=
    foldr (fun key m => <[key := module_globals key]> m)
      {["asyncio" := asyncio_module]} module_keys in
  match local with
  | Some l => l ∪ repl_locals
  | None => repl_locals
  end.

(** The output of the interactive thread before its reader loop starts:
    the banner ([banner is None] gives the default) and the prompt echo. *)
Definition banner_text (banner : option string) (version platform : string) : string :=
  match banner with None => default_banner version platform | Some b => b end.

(** ** Steps of a session

    Each step is one atomic action of the two threads: the interactive
    thread submits a unit or returns from [future.result()], or finishes
    [run]; the loop thread runs a ready callback, completes a task (whose
    coroutine may have changed the namespace), or the driver handles a
    [KeyboardInterrupt] raised out of [run_forever]. *)
Inductive step : world -> world -> Prop :=
| step_submit c w :
    waiting w = None -> step w (runcode_submit c w)
| step_callback so w w' :
    run_once so w = Some w' -> step w w'
| step_task t r ns w w' :
    r <> TPending -> task_finish t r (with_locals ns w) = Some w' -> step w w'
| step_interrupt w w' :
    on_driver_interrupt w = Some w' -> step w w'
| step_resume w w' ov :
    runcode_resume w = Some (w', ov) -> step w w'
| step_repl_end p b sc v pl ps le w :
    step w (repl_thread_run p b sc v pl ps le w).

Definition steps := rtc step.

(** No task of [m] has [f] as the destination of its [_chain_future]. *)
Definition not_chained (f : nat) (m : gmap nat task) : Prop :=
  forall t tk, m !! t = Some tk -> t_chained tk <> Some f.

(** ** Sample statements used on concrete inputs *)

(** [x = 1] *)
Definition unit_assign : code := fun ns => (<["x" := VInt 1]> ns, Returned VNone).
(** [42] *)
Definition unit_value : code := fun ns => (ns, Returned (VInt 42)).
(** [1/0] *)
Definition unit_error : code := fun ns => (ns, Raised (OtherError "ZeroDivisionError")).
(** [raise SystemExit(n)] *)
Definition unit_exit (n : Z) : code := fun ns => (ns, Raised (SystemExit (VInt n))).
(** A statement interrupted by Ctrl-C while it runs. *)
Definition unit_interrupted : code := fun ns => (ns, Raised KeyboardInterrupt).
(** [await asyncio.sleep(1)]: the invocation returns a coroutine. *)
Definition unit_await : code := fun ns => (ns, Returned (VCoro 0)).

(** A fresh console whose captured context is numbered 7. *)
Definition w_start : world := console_init ∅ 7.

(** The console after [runcode(unit_await)] submitted its callback and the
    loop ran it: future 0 pending, task 1 chained to it. *)
Definition w_spawned : world :=
  match run_once SpawnOk (runcode_submit unit_await w_start) with
  | Some w => w
  | None => w_start
  end.

(** Ctrl-C at an idle prompt: the [KeyboardInterrupt] leaves
    [run_forever] in the main thread while no statement runs. *)
Definition w_idle_interrupted : world :=
  match on_driver_interrupt w_start with Some w => w | None => w_start end.

(** [runcode(unit_await)] where the task created for the coroutine
    returns None: the value [runcode] returns and the final state. *)
Definition after_await : option (world * option value) :=
  match run_once SpawnOk (runcode_submit unit_await w_start) with
  | Some w1 =>
      match task_finish 1 (TResult VNone) w1 with
      | Some w2 => runcode_resume w2
      | None => None
      end
  | None => None
  end.

(** Every task of the loop is done. *)
Definition no_task_pending (w : world) : bool :=
  bool_decide (map_Forall (fun _ tk => task_is_done tk = true) (tasks w)).

(** The fields of the console and of the loop queue that an operation on
    futures and tasks leaves alone. *)
Record frame (w w' : world) : Prop := {
  fr_context : context w' = context w;
  fr_repl_future : repl_future w' = repl_future w;
  fr_kbd : keyboard_interrupted w' = keyboard_interrupted w;
  fr_return_code : return_code w' = return_code w;
  fr_ready : ready w' = ready w;
  fr_stopped : stopped w' = stopped w
}.

(** Every future and every task has an id below [next_id]: the id the
    next [runcode] or [create_task] takes is unused. *)
Definition ids_below (w : world) : Prop :=
  map_Forall (fun k _ => k < next_id w) (futures w) /\
  map_Forall (fun k _ => k < next_id w) (tasks w).

(** How a state may evolve: ids only grow, new futures and tasks take
    ids between the old and the new [next_id], a future that is no longer
    pending keeps its state and a task that is done is left unchanged. *)
Record evolves (w w' : world) : Prop := {
  ev_next : next_id w <= next_id w';
  ev_fut_keys : forall k, is_Some (futures w' !! k) ->
                  is_Some (futures w !! k) \/ next_id w <= k < next_id w';
  ev_task_keys : forall k, is_Some (tasks w' !! k) ->
                  is_Some (tasks w !! k) \/ next_id w <= k < next_id w';
  ev_fut_kept : forall f s, futures w !! f = Some s -> s <> FPending ->
                  futures w' !! f = Some s;
  ev_task_kept : forall t tk, tasks w !! t = Some tk -> t_state tk <> TPending ->
                  tasks w' !! t = Some tk
}.

(** A console after a statement whose value is [42]: future 0 finished. *)
Definition w_answered : world :=
  match run_once SpawnOk (runcode_submit unit_value w_start) with
  | Some w => w
  | None => w_start
  end.

(** The console after [runcode(unit_await)] whose task returned None. *)
Definition w_task_done : world :=
  match run_once SpawnOk (runcode_submit unit_await w_start) with
  | Some w1 => match task_finish 1 (TResult VNone) w1 with Some w2 => w2 | None => w1 end
  | None => w_start
  end.

(** ** Helper lemmas *)

Lemma not_chained_insert f m t tk :
  not_chained f m -> t_chained tk <> Some f -> not_chained f (<[t := tk]> m).
Proof.
  intros H Htk t' tk'. rewrite lookup_insert. case_decide as Heq.
  - intros [= <-]. exact Htk.
  - apply H.
Qed.

Lemma set_result_pending f v w :
  futures w !! f = Some FPending ->
  set_result f v w = Some (with_futures (<[f := FFinishedResult v]> (futures w)) w).
Proof. intros H. unfold set_result. by rewrite H. Qed.

Lemma set_exception_pending f e w :
  futures w !! f = Some FPending ->
  set_exception f e w = Some (with_futures (<[f := FFinishedExc e]> (futures w)) w).
Proof. intros H. unfold set_exception. by rewrite H. Qed.

Lemma set_exception_Some f e w w' :
  set_exception f e w = Some w' ->
  futures w !! f = Some FPending /\ w' = with_futures (<[f := FFinishedExc e]> (futures w)) w.
Proof.
  unfold set_exception. destruct (futures w !! f) as [[]|]; intros H; try discriminate.
  injection H as <-. auto.
Qed.

Lemma set_result_Some f v w w' :
  set_result f v w = Some w' ->
  futures w !! f = Some FPending /\ w' = with_futures (<[f := FFinishedResult v]> (futures w)) w.
Proof.
  unfold set_result. destruct (futures w !! f) as [[]|]; intros H; try discriminate.
  injection H as <-. auto.
Qed.

Lemma frame_refl w : frame w w.
Proof. by constructor. Qed.

Lemma frame_trans w1 w2 w3 : frame w1 w2 -> frame w2 w3 -> frame w1 w3.
Proof. intros [] []. constructor; congruence. Qed.

Lemma set_exception_frame f e w w' :
  set_exception f e w = Some w' -> frame w w' /\ tasks w' = tasks w.
Proof. intros [_ ->]%set_exception_Some. split; [by constructor|done]. Qed.

Lemma set_result_frame f v w w' :
  set_result f v w = Some w' -> frame w w' /\ tasks w' = tasks w.
Proof. intros [_ ->]%set_result_Some. split; [by constructor|done]. Qed.

Lemma copy_state_frame f r w w' :
  copy_state f r w = Some w' -> frame w w' /\ tasks w' = tasks w.
Proof.
  unfold copy_state. destruct (futures w !! f) as [[]|]; intros H; try discriminate;
    injection H as <-; split; try done; by constructor.
Qed.

Lemma task_finish_frame t r w w' :
  task_finish t r w = Some w' ->
  frame w w' /\ exists tk, tasks w !! t = Some tk /\
    tasks w' = <[t := mkTask (t_coro tk) (t_context tk) r (t_chained tk)]> (tasks w).
Proof.
  unfold task_finish. destruct (tasks w !! t) as [tk|] eqn:Ht; [|discriminate].
  destruct (t_state tk); try discriminate.
  destruct (t_chained tk) as [f|] eqn:Hch.
  - intros [Hfr Htasks]%copy_state_frame. split.
    + eapply frame_trans; [|exact Hfr]. by constructor.
    + exists tk. split; [done|]. rewrite Htasks, Hch. reflexivity.
  - intros [= <-]. split; [by constructor|]. exists tk. by rewrite Hch.
Qed.

(** What one [callback] run may change. *)
Lemma callback_effect c f so w w' :
  callback c f so w = Some w' ->
  context w' = context w /\ ready w' = ready w /\
  (forall t tk, tasks w' !! t = Some tk ->
     tasks w !! t = Some tk \/ t_context tk = context w) /\
  (keyboard_interrupted w' = keyboard_interrupted w \/ keyboard_interrupted w' = Some true) /\
  (repl_future w' = repl_future w \/
     exists t tk, repl_future w' = Some t /\ tasks w' !! t = Some tk /\ t_state tk = TPending) /\
  (return_code w' = return_code w \/ stopped w' = true) /\
  (stopped w = true -> stopped w' = true).
Proof.
  unfold callback. destruct (c (locals w)) as [ns [v|e]].
  - destruct (iscoroutine v) eqn:Hv; cbn.
    + destruct so as [|e|e]; cbn.
      * unfold chain_future. cbn. rewrite lookup_insert_eq. cbn.
        intros [= <-]. cbn. rewrite insert_insert_eq.
        split; [done|]. split; [done|]. split.
        { intros t tk. rewrite lookup_insert. case_decide; [intros [= <-]; by right|by left]. }
        split; [by left|]. split.
        { right. eexists _, _. rewrite lookup_insert_eq. done. }
        split; [by left|done].
      * intros [Hfr Htk]%set_exception_frame. destruct Hfr. cbn in *.
        split; [done|]. split; [done|]. split.
        { intros t tk. rewrite Htk. by left. }
        split; [by left|]. split; [by left|]. split; [by left|congruence].
      * intros [Hfr Htk]%set_exception_frame. destruct Hfr. cbn in *.
        split; [done|]. split; [done|]. split.
        { intros t tk. rewrite Htk, lookup_insert. case_decide; [intros [= <-]; by right|by left]. }
        split; [by left|]. split.
        { right. eexists _, _. rewrite Htk, fr_repl_future0, lookup_insert_eq. done. }
        split; [by left|congruence].
    + intros [Hfr Htk]%set_result_frame. destruct Hfr. cbn in *.
      split; [done|]. split; [done|]. split.
      { intros t tk. rewrite Htk. by left. }
      split; [by left|]. split; [by left|]. split; [by left|congruence].
  - destruct e as [code| | |n]; cbn.
    + intros [= <-]. cbn. split; [done|]. split; [done|]. split; [by left|].
      split; [by left|]. split; [by left|]. split; [by right|done].
    + intros [Hfr Htk]%set_exception_frame. destruct Hfr. cbn in *.
      split; [done|]. split; [done|]. split.
      { intros t tk. rewrite Htk. by left. }
      split; [by right|]. split; [by left|]. split; [by left|congruence].
    + intros [Hfr Htk]%set_exception_frame. destruct Hfr. cbn in *.
      split; [done|]. split; [done|]. split.
      { intros t tk. rewrite Htk. by left. }
      split; [by left|]. split; [by left|]. split; [by left|congruence].
    + intros [Hfr Htk]%set_exception_frame. destruct Hfr. cbn in *.
      split; [done|]. split; [done|]. split.
      { intros t tk. rewrite Htk. by left. }
      split; [by left|]. split; [by left|]. split; [by left|congruence].
Qed.

(** What [runcode]'s [except] clauses may change. *)
Lemma runcode_except_effect e w :
  let w' := runcode_except e w in
  context w' = context w /\ ready w' = ready w /\ tasks w' = tasks w /\
  keyboard_interrupted w' = keyboard_interrupted w /\ repl_future w' = repl_future w /\
  (return_code w' = return_code w \/ stopped w' = true) /\
  (stopped w = true -> stopped w' = true).
Proof.
  unfold runcode_except. destruct e; cbn;
    try (destruct (truthy (keyboard_interrupted w)); cbn);
    repeat split; auto.
Qed.

(** What one step of a session may change. *)
Lemma step_effect w w' :
  step w w' ->
  context w' = context w /\
  (forall h, h ∈ ready w' -> h ∈ ready w \/ h_context h = context w) /\
  (forall t tk, tasks w' !! t = Some tk ->
     (exists tk0, tasks w !! t = Some tk0 /\ t_context tk = t_context tk0) \/
     t_context tk = context w) /\
  (keyboard_interrupted w' = keyboard_interrupted w \/ keyboard_interrupted w' = Some true) /\
  (repl_future w' = repl_future w \/
     exists t tk, repl_future w' = Some t /\ tasks w' !! t = Some tk /\ t_state tk = TPending) /\
  (return_code w' = return_code w \/ stopped w' = true) /\
  (stopped w = true -> stopped w' = true).
Proof.
  destruct 1 as [c w Hw|so w w' Hrun|t r ns w w' Hr Hfin|w w' Hint|w w' ov Hres
                |p b sc v pl ps le w].
  - (* submit *)
    cbn. split; [done|]. split.
    { intros h [Hh|Hh%list_elem_of_singleton]%elem_of_app; [by left|]. subst h. by right. }
    split; [intros t tk Htk; left; by exists tk|].
    split; [by left|]. split; [by left|]. split; [by left|done].
  - (* the loop runs the oldest ready callback *)
    unfold run_once in Hrun. destruct (ready w) as [|h q] eqn:Hq; [discriminate|].
    apply callback_effect in Hrun. cbn in Hrun.
    destruct Hrun as (Hctx & Hready & Htasks & Hkbd & Hrf & Hrc & Hst).
    split; [done|]. split.
    { intros h' Hh'. left. rewrite Hready in Hh'. apply list_elem_of_further, Hh'. }
    split.
    { intros t tk Htk. destruct (Htasks t tk Htk) as [Hold|Hnew]; [left; by exists tk|by right]. }
    auto.
  - (* a task completes *)
    apply task_finish_frame in Hfin as [[] (tk0 & Ht0 & Htasks)]. cbn in *.
    split; [done|]. split; [rewrite fr_ready0; by left|]. split.
    { intros t' tk. rewrite Htasks, lookup_insert. case_decide as Heq.
      - intros [= <-]. left. subst t'. by exists tk0.
      - intros Htk. left. by exists tk. }
    split; [by left|]. split; [by left|]. split; [by left|congruence].
  - (* KeyboardInterrupt caught around run_forever *)
    unfold on_driver_interrupt in Hint. cbn in Hint.
    destruct (repl_future w) as [t|] eqn:Hrf;
      [destruct (tasks w !! t) as [tk|] eqn:Ht; [destruct (negb (task_is_done tk))|]|].
    + unfold task_cancel in Hint.
      apply task_finish_frame in Hint as [[] (tk0 & Ht0 & Htasks)]. cbn in *.
      split; [done|]. split; [rewrite fr_ready0; by left|]. split.
      { intros t' tk'. rewrite Htasks, lookup_insert. case_decide as Heq.
        - intros [= <-]. left. subst t'. by exists tk0.
        - intros Htk. left. by exists tk'. }
      split; [by right|]. split; [left; congruence|]. split; [by left|congruence].
    + injection Hint as <-. cbn. split; [done|]. split; [by left|].
      split; [intros t' tk' Htk; left; by exists tk'|].
      split; [by right|]. split; [by left|]. split; [by left|done].
    + injection Hint as <-. cbn. split; [done|]. split; [by left|].
      split; [intros t' tk' Htk; left; by exists tk'|].
      split; [by right|]. split; [by left|]. split; [by left|done].
    + injection Hint as <-. cbn. split; [done|]. split; [by left|].
      split; [intros t' tk' Htk; left; by exists tk'|].
      split; [by right|]. split; [by left|]. split; [by left|done].
  - (* runcode returns from future.result() *)
    unfold runcode_resume in Hres. destruct (waiting w) as [f|]; [|discriminate].
    assert (Hgen : forall e, w' = runcode_except e (with_waiting None w) -> 
      context w' = context w /\
      (forall h, h ∈ ready w' -> h ∈ ready w \/ h_context h = context w) /\
      (forall t tk, tasks w' !! t = Some tk ->
         (exists tk0, tasks w !! t = Some tk0 /\ t_context tk = t_context tk0) \/
         t_context tk = context w) /\
      (keyboard_interrupted w' = keyboard_interrupted w \/ keyboard_interrupted w' = Some true) /\
      (repl_future w' = repl_future w \/
         exists t tk, repl_future w' = Some t /\ tasks w' !! t = Some tk /\ t_state tk = TPending) /\
      (return_code w' = return_code w \/ stopped w' = true) /\
      (stopped w = true -> stopped w' = true)).
    { intros e ->. destruct (runcode_except_effect e (with_waiting None w))
        as (Hc & Hr & Ht & Hk & Hrf & Hrc & Hst). cbn in *.
      split; [done|]. split; [rewrite Hr; by left|].
      split; [intros t tk Htk; left; exists tk; by rewrite <- Ht|].
      auto. }
    destruct (futures w !! f) as [[| v | e |]|]; try discriminate.
    + injection Hres as <- _. cbn. split; [done|]. split; [by left|].
      split; [intros t' tk' Htk; left; by exists tk'|].
      split; [by left|]. split; [by left|]. split; [by left|done].
    + injection Hres as Hw' _. by apply (Hgen e).
    + injection Hres as Hw' _. by apply (Hgen CancelledError).
  - (* the interactive thread ends *)
    unfold repl_thread_run, run_startup.
    destruct sc as [sc|]; [destruct (sc _) as [ns [|]]|];
      destruct p; try destruct le; cbn;
      (split; [done|]); (split; [by left|]);
      (split; [intros t' tk' Htk; left; by exists tk'|]);
      (split; [by left|]); (split; [by left|]); (split; [by right|done]).
Qed.

(** A property kept by every step holds all along a session. *)
Lemma steps_preserve (P : world -> Prop) :
  (forall w w', step w w' -> P w -> P w') ->
  forall w w', steps w w' -> P w -> P w'.
Proof. intros Hstep w w' Hs. induction Hs; eauto. Qed.

(** ** Claims *)

(** C1: for a unit whose invocation returns a value that is not a
    coroutine, [runcode] submits the callback, the callback resolves the
    future with that value, and [future.result()] returns it; the
    namespace is the one the unit left, both when the future is resolved
    and when [runcode] returns. *)
Theorem runcode_plain_value (c : code) (so : spawn_outcome) (w : world) ns v :
  waiting w = None -> ready w = [] ->
  c (locals w) = (ns, Returned v) -> iscoroutine v = false ->
  exists w1 w2,
    run_once so (runcode_submit c w) = Some w1 /\
    futures w1 !! next_id w = Some (FFinishedResult v) /\ locals w1 = ns /\
    runcode_resume w1 = Some (w2, Some v) /\ locals w2 = ns /\ waiting w2 = None.
Proof.
  intros Hwait Hready Hc Hv.
  unfold run_once, runcode_submit. cbn. rewrite Hready. cbn.
  unfold callback. cbn. rewrite Hc. rewrite Hv. cbn.
  rewrite set_result_pending by (cbn; apply lookup_insert_eq).
  eexists _, _. split; [reflexivity|]. cbn.
  rewrite insert_insert_eq, lookup_insert_eq.
  repeat split.
Qed.

Lemma runcode_plain_value_witness :
  exists w1 w2,
    run_once SpawnOk (runcode_submit unit_assign w_start) = Some w1 /\
    futures w1 !! 0 = Some (FFinishedResult VNone) /\ locals w1 = <["x" := VInt 1]> ∅ /\
    runcode_resume w1 = Some (w2, Some VNone) /\ locals w2 = <["x" := VInt 1]> ∅ /\
    waiting w2 = None.
Proof.
  apply (runcode_plain_value unit_assign SpawnOk w_start (<["x" := VInt 1]> ∅) VNone);
    vm_compute; reflexivity.
Defined.


(** C3: when the invocation raises [SystemExit] inside the callback, the
    callback stores the exception's code in [return_code], stops the loop
    and settles nothing: futures and tasks are left as they were. *)
Theorem callback_system_exit (c : code) f so w ns code :
  c (locals w) = (ns, Raised (SystemExit code)) ->
  exists w', callback c f so w = Some w' /\
    return_code w' = code /\ stopped w' = true /\
    futures w' = futures w /\ tasks w' = tasks w /\ repl_future w' = repl_future w.
Proof.
  intros Hc. unfold callback. rewrite Hc.
  eexists. split; [reflexivity|]. cbn. repeat split.
Qed.

Lemma callback_system_exit_witness :
  exists w', callback (unit_exit 7) 0 SpawnOk (runcode_submit (unit_exit 7) w_start) = Some w' /\
    return_code w' = VInt 7 /\ stopped w' = true /\
    futures w' = futures (runcode_submit (unit_exit 7) w_start) /\
    tasks w' = tasks (runcode_submit (unit_exit 7) w_start) /\
    repl_future w' = repl_future (runcode_submit (unit_exit 7) w_start).
Proof.
  apply (callback_system_exit (unit_exit 7) 0 SpawnOk (runcode_submit (unit_exit 7) w_start) ∅
           (VInt 7)).
  vm_compute. reflexivity.
Defined.


(** C2: started on a pending future that no task is chained to, the
    callback takes exactly one branch and never writes a settled future
    ([None] would be [InvalidStateError]).  Either it settles the future
    itself and chains no task to it, or (the [SystemExit] branch) it leaves
    the future pending with no task chained, or it leaves the future
    pending with exactly one task chained to it, the new [repl_future];
    that task's completion, whatever its outcome, then settles the future
    once, with the task's outcome. *)
Theorem callback_settles_at_most_once (c : code) f so w :
  futures w !! f = Some FPending -> not_chained f (tasks w) ->
  exists w', callback c f so w = Some w' /\
   ((exists s, futures w' !! f = Some s /\ s <> FPending /\ not_chained f (tasks w'))
    \/ (futures w' !! f = Some FPending /\ stopped w' = true /\ not_chained f (tasks w'))
    \/ (futures w' !! f = Some FPending /\
        exists t tk, repl_future w' = Some t /\ tasks w' !! t = Some tk /\
          t_state tk = TPending /\ t_chained tk = Some f /\
          (forall t' tk', tasks w' !! t' = Some tk' -> t_chained tk' = Some f -> t' = t) /\
          (forall r ns, r <> TPending ->
             exists w'', task_finish t r (with_locals ns w') = Some w'' /\
               futures w'' !! f = Some (fstate_of r)))).
Proof.
  intros Hf Hnc. unfold callback.
  destruct (c (locals w)) as [ns [v|e]].
  - destruct (iscoroutine v) eqn:Hv; cbn.
    + destruct so as [|e|e]; cbn.
      * (* create_task and _chain_future succeed *)
        unfold chain_future. cbn. rewrite lookup_insert_eq. cbn.
        eexists. split; [reflexivity|]. right; right. cbn.
        split; [exact Hf|].
        eexists _, _. rewrite insert_insert_eq, lookup_insert_eq.
        split; [reflexivity|]. split; [reflexivity|].
        split; [reflexivity|]. split; [reflexivity|]. split.
        -- intros t' tk'. rewrite lookup_insert. case_decide as Heq; [done|].
           intros Ht' Hch. exfalso. exact (Hnc _ _ Ht' Hch).
        -- intros r ns' Hr. unfold task_finish. cbn. rewrite lookup_insert_eq. cbn.
           unfold copy_state. cbn. rewrite Hf.
           eexists. split; [reflexivity|]. cbn. apply lookup_insert_eq.
      * rewrite set_exception_pending by exact Hf.
        eexists. split; [reflexivity|]. left. cbn.
        eexists. rewrite lookup_insert_eq. split; [reflexivity|]. split; [done|]. exact Hnc.
      * rewrite set_exception_pending by exact Hf.
        eexists. split; [reflexivity|]. left. cbn.
        eexists. rewrite lookup_insert_eq. split; [reflexivity|]. split; [done|].
        apply not_chained_insert; [exact Hnc|]. cbn. discriminate.
    + rewrite set_result_pending by exact Hf.
      eexists. split; [reflexivity|]. left. cbn.
      eexists. rewrite lookup_insert_eq. split; [reflexivity|]. split; [done|]. exact Hnc.
  - destruct e as [code| | |n]; cbn.
    + eexists. split; [reflexivity|]. right; left. cbn. auto.
    + rewrite set_exception_pending by exact Hf.
      eexists. split; [reflexivity|]. left. cbn.
      eexists. rewrite lookup_insert_eq. split; [reflexivity|]. split; [done|]. exact Hnc.
    + rewrite set_exception_pending by exact Hf.
      eexists. split; [reflexivity|]. left. cbn.
      eexists. rewrite lookup_insert_eq. split; [reflexivity|]. split; [done|]. exact Hnc.
    + rewrite set_exception_pending by exact Hf.
      eexists. split; [reflexivity|]. left. cbn.
      eexists. rewrite lookup_insert_eq. split; [reflexivity|]. split; [done|]. exact Hnc.
Qed.

Lemma callback_settles_at_most_once_witness :
  exists w', callback unit_await 0 SpawnOk (runcode_submit unit_await w_start) = Some w' /\
   ((exists s, futures w' !! 0 = Some s /\ s <> FPending /\ not_chained 0 (tasks w'))
    \/ (futures w' !! 0 = Some FPending /\ stopped w' = true /\ not_chained 0 (tasks w'))
    \/ (futures w' !! 0 = Some FPending /\
        exists t tk, repl_future w' = Some t /\ tasks w' !! t = Some tk /\
          t_state tk = TPending /\ t_chained tk = Some 0 /\
          (forall t' tk', tasks w' !! t' = Some tk' -> t_chained tk' = Some 0 -> t' = t) /\
          (forall r ns, r <> TPending ->
             exists w'', task_finish t r (with_locals ns w') = Some w'' /\
               futures w'' !! 0 = Some (fstate_of r)))).
Proof.
  apply (callback_settles_at_most_once unit_await 0 SpawnOk (runcode_submit unit_await w_start)).
  - vm_compute. reflexivity.
  - intros t tk. cbn. rewrite lookup_empty. discriminate.
Defined.


(** C4: when [repl_future] is a task that is not done, chained to the
    future the interactive thread waits on, a [KeyboardInterrupt] caught by
    the driver cancels exactly that task (every other task and future is
    left as it was); the chained future becomes cancelled, so
    [future.result()] returns (raising [CancelledError]) and [runcode]
    writes the interrupt notice. *)
Theorem driver_interrupt_cancels_pending_task w t tk f :
  repl_future w = Some t -> tasks w !! t = Some tk -> t_state tk = TPending ->
  t_chained tk = Some f -> futures w !! f = Some FPending -> waiting w = Some f ->
  exists w', on_driver_interrupt w = Some w' /\
    tasks w' !! t = Some (mkTask (t_coro tk) (t_context tk) TCancelled (Some f)) /\
    (forall t', t' <> t -> tasks w' !! t' = tasks w !! t') /\
    futures w' !! f = Some FCancelled /\
    (forall f', f' <> f -> futures w' !! f' = futures w !! f') /\
    exists w'', runcode_resume w' = Some (w'', None) /\ waiting w'' = None /\
      out w'' = (out w ++ [interrupt_notice])%list.
Proof.
  intros Hrf Ht Hst Hch Hf Hw.
  unfold on_driver_interrupt. cbn. rewrite Hrf, Ht.
  unfold task_is_done. rewrite Hst. cbn.
  unfold task_cancel, task_finish. cbn. rewrite Ht, Hst, Hch.
  unfold copy_state. cbn. rewrite Hf.
  eexists. split; [reflexivity|]. cbn.
  split; [apply lookup_insert_eq|].
  split; [intros t' Hne; by rewrite lookup_insert_ne by congruence|].
  split; [apply lookup_insert_eq|].
  split; [intros f' Hne; by rewrite lookup_insert_ne by congruence|].
  unfold runcode_resume. cbn. rewrite Hw, lookup_insert_eq. cbn.
  eexists. split; [reflexivity|]. split; reflexivity.
Qed.

Lemma driver_interrupt_cancels_pending_task_witness :
  exists w', on_driver_interrupt w_spawned = Some w' /\
    tasks w' !! 1 = Some (mkTask (VCoro 0) 7 TCancelled (Some 0)) /\
    (forall t', t' <> 1 -> tasks w' !! t' = tasks w_spawned !! t') /\
    futures w' !! 0 = Some FCancelled /\
    (forall f', f' <> 0 -> futures w' !! f' = futures w_spawned !! f') /\
    exists w'', runcode_resume w' = Some (w'', None) /\ waiting w'' = None /\
      out w'' = (out w_spawned ++ [interrupt_notice])%list.
Proof.
  apply (driver_interrupt_cancels_pending_task w_spawned 1 (mkTask (VCoro 0) 7 TPending (Some 0)) 0);
    vm_compute; reflexivity.
Defined.


(** C5 (evaluation at a failing input): after one Ctrl-C at the idle
    prompt, a later statement that raises an ordinary error
    ([ZeroDivisionError]) makes [runcode] write the fixed interrupt notice,
    not a traceback: [keyboard_interrupted] is still [True]. *)
Theorem error_after_interrupt_prints_notice :
  exists w0 w1 w2,
    on_driver_interrupt w_start = Some w0 /\
    run_once SpawnOk (runcode_submit unit_error w0) = Some w1 /\
    futures w1 !! 0 = Some (FFinishedExc (OtherError "ZeroDivisionError")) /\
    runcode_resume w1 = Some (w2, None) /\
    out w2 = [interrupt_notice] /\
    traceback (OtherError "ZeroDivisionError") ∉ out w2.
Proof.
  do 3 eexists.
  split; [reflexivity|]. split; [reflexivity|]. split; [reflexivity|].
  split; [reflexivity|]. split; [reflexivity|].
  cbn. rewrite list_elem_of_singleton. discriminate.
Qed.

(** C6 (counterexample): after [await ...] ran to completion, [runcode]
    returned and no task is pending, yet [repl_future] still names the
    finished task 1. *)
Lemma repl_future_kept_after_completion :
  match after_await with
  | Some (w3, Some VNone) =>
      waiting w3 = None /\ no_task_pending w3 = true /\ repl_future w3 = Some 1
  | _ => False
  end.
Proof. vm_compute. repeat split. Qed.

(** C6 (amended): [repl_future] is None when the console is created; the
    callback sets it to the task it creates for a coroutine; no step ever
    clears it: each step keeps it or points it at a pending task. *)
Theorem repl_future_set_on_spawn_never_cleared :
  (forall ns ctx, repl_future (console_init ns ctx) = None) /\
  (forall c f w w' ns coro,
     c (locals w) = (ns, Returned coro) -> iscoroutine coro = true ->
     callback c f SpawnOk w = Some w' ->
     repl_future w' = Some (next_id w) /\
     exists tk, tasks w' !! next_id w = Some tk /\ t_state tk = TPending /\
       t_chained tk = Some f) /\
  (forall w w', step w w' ->
     repl_future w' = repl_future w \/
     exists t tk, repl_future w' = Some t /\ tasks w' !! t = Some tk /\ t_state tk = TPending).
Proof.
  split; [reflexivity|]. split.
  - intros c f w w' ns coro Hc Hco. unfold callback. rewrite Hc, Hco. cbn.
    unfold chain_future. cbn. rewrite lookup_insert_eq. intros [= <-]. cbn.
    split; [reflexivity|]. eexists. rewrite insert_insert_eq, lookup_insert_eq. done.
  - intros w w' Hs. apply step_effect in Hs. tauto.
Qed.

Lemma repl_future_set_on_spawn_never_cleared_witness :
  (repl_future w_spawned = Some 1 /\
   exists tk, tasks w_spawned !! 1 = Some tk /\ t_state tk = TPending /\ t_chained tk = Some 0) /\
  (repl_future w_spawned = repl_future (runcode_submit unit_await w_start) \/
   exists t tk, repl_future w_spawned = Some t /\ tasks w_spawned !! t = Some tk /\
     t_state tk = TPending).
Proof.
  destruct repl_future_set_on_spawn_never_cleared as (_ & Hspawn & Hstep). split.
  - apply (Hspawn unit_await 0 (with_ready [] (runcode_submit unit_await w_start)) w_spawned ∅
             (VCoro 0)); vm_compute; reflexivity.
  - apply Hstep. apply (step_callback SpawnOk). vm_compute. reflexivity.
Defined.


(** C7: the context captured by [copy_context()] in [__init__] is never
    replaced, and every handle queued by [call_soon_threadsafe] and every
    task created by [create_task] along a session carries that same
    context. *)
Theorem context_captured_once ns ctx w :
  steps (console_init ns ctx) w ->
  context w = ctx /\ Forall (fun h => h_context h = ctx) (ready w) /\
  map_Forall (fun _ tk => t_context tk = ctx) (tasks w).
Proof.
  intros Hs.
  refine (steps_preserve (fun w => context w = ctx /\ Forall (fun h => h_context h = ctx) (ready w) /\
                          map_Forall (fun _ tk => t_context tk = ctx) (tasks w)) _ _ _ Hs _).
  - intros w1 w2 Hst (Hc & Hr & Ht).
    destruct (step_effect _ _ Hst) as (Hc' & Hr' & Ht' & _).
    split; [congruence|]. split.
    + apply Forall_forall. intros h Hh.
      destruct (Hr' h Hh) as [Hold|Hnew]; [|congruence].
      by apply (proj1 (Forall_forall _ _) Hr).
    + intros t tk Htk. destruct (Ht' t tk Htk) as [(tk0 & Htk0 & ->)|Hnew]; [|congruence].
      exact (Ht t tk0 Htk0).
  - cbn. split; [done|]. split; [constructor|]. apply map_Forall_empty.
Qed.

Lemma context_captured_once_witness :
  context w_spawned = 7 /\ Forall (fun h => h_context h = 7) (ready w_spawned) /\
  map_Forall (fun _ tk => t_context tk = 7) (tasks w_spawned).
Proof.
  apply (context_captured_once ∅ 7 w_spawned).
  eapply rtc_l; [apply (step_submit unit_await); reflexivity|].
  apply rtc_once. apply (step_callback SpawnOk). vm_compute. reflexivity.
Defined.


(** C8 (evaluation at a failing input): with the basic REPL
    ([can_use_pyrepl] false), an unexpected failure of the interactive
    loop leaves [return_code] at 0, so [sys.exit] is called with 0; the
    same failure of the pyrepl loop records 1. *)
Lemma basic_repl_failure_exits_zero :
  snd (interact_finish None
         (repl_thread_run false None None "3.14" "linux" ">>> "
            (LoopRaises (OtherError "OSError")) w_start)) = VInt 0 /\
  snd (interact_finish None
         (repl_thread_run true None None "3.14" "linux" ">>> "
            (LoopRaises (OtherError "OSError")) w_start)) = VInt 1.
Proof. split; reflexivity. Qed.

(** C9 (evaluation at a failing input): [interact(exitmsg="")] writes the
    default farewell as its last output, while the sibling parameter
    [banner=""] is written as given. *)
Theorem empty_exitmsg_prints_default :
  last (fst (interact_finish (Some "") w_start)) = Some default_exitmsg /\
  default_exitmsg <> "" /\
  head (out (repl_thread_run true (Some "") None "3.14" "linux" ">>> " LoopReturns w_start))
    = Some "".
Proof. split; [reflexivity|]. split; [discriminate|reflexivity]. Qed.

(** C10: [keyboard_interrupted] starts as None; the interrupt branch of the
    callback and the driver's [except KeyboardInterrupt] set it to True;
    and no step resets it, so once True it stays True for the rest of the
    session. *)
Theorem keyboard_interrupted_sticky :
  (forall ns ctx, keyboard_interrupted (console_init ns ctx) = None) /\
  (forall c f so w w' ns,
     c (locals w) = (ns, Raised KeyboardInterrupt) -> callback c f so w = Some w' ->
     keyboard_interrupted w' = Some true) /\
  (forall w w', on_driver_interrupt w = Some w' -> keyboard_interrupted w' = Some true) /\
  (forall w w', steps w w' -> keyboard_interrupted w = Some true ->
     keyboard_interrupted w' = Some true).
Proof.
  split; [reflexivity|]. split.
  - intros c f so w w' ns Hc. unfold callback. rewrite Hc. cbn.
    intros [[] _]%set_exception_frame. exact fr_kbd0.
  - split.
    + intros w w'. unfold on_driver_interrupt. cbn.
      destruct (repl_future w) as [t|];
        [destruct (tasks w !! t) as [tk|]; [destruct (negb (task_is_done tk))|]|].
      * intros [[] _]%task_finish_frame. exact fr_kbd0.
      * by intros [= <-].
      * by intros [= <-].
      * by intros [= <-].
    + apply (steps_preserve (fun w => keyboard_interrupted w = Some true)). intros w1 w2 Hs Hk.
      destruct (step_effect _ _ Hs) as (_ & _ & _ & [H|H] & _); congruence.
Qed.

Lemma keyboard_interrupted_sticky_witness :
  keyboard_interrupted w_idle_interrupted = Some true /\
  keyboard_interrupted (runcode_submit unit_error w_idle_interrupted) = Some true.
Proof.
  destruct keyboard_interrupted_sticky as (_ & _ & Hdrv & Hsteps).
  assert (H : keyboard_interrupted w_idle_interrupted = Some true).
  { apply (Hdrv w_start w_idle_interrupted). vm_compute. reflexivity. }
  split; [exact H|].
  apply (Hsteps w_idle_interrupted).
  - apply rtc_once. apply step_submit. vm_compute. reflexivity.
  - exact H.
Defined.


(** ** Further properties of the code *)

Lemma foldr_insert_lookup (g : string -> value) (ks : list string)
    (m0 : gmap string value) k :
  foldr (fun key (m : gmap string value) => <[key := g key]> m) m0 ks !! k =
    if decide (k ∈ ks) then Some (g k) else m0 !! k.
Proof.
  induction ks as [|k' ks IH]; cbn [foldr].
  - rewrite decide_False; [done|]. apply not_elem_of_nil.
  - rewrite lookup_insert, IH.
    destruct (decide (k' = k)) as [->|Hne].
    + rewrite decide_True; [done|]. apply elem_of_cons. by left.
    + destruct (decide (k ∈ ks)) as [Hin|Hin].
      * rewrite decide_True; [done|]. apply elem_of_cons. by right.
      * rewrite decide_False; [done|]. intros [->|?]%elem_of_cons; auto.
Qed.

(** The namespace of [interact]: an entry of the caller's [local] wins over
    the defaults; otherwise the six module keys hold the module's globals
    and ["asyncio"] the asyncio module; no other name is bound. *)
Theorem interact_locals_lookup am g local k :
  interact_locals am g local !! k =
    match (match local with Some l => l !! k | None => None end) with
    | Some v => Some v
    | None => if decide (k ∈ module_keys) then Some (g k)
              else if decide (k = "asyncio") then Some am else None
    end.
Proof.
  unfold interact_locals. unfold namespace in *.
  assert (Hbase : foldr (fun key (m : gmap string value) => <[key := g key]> m)
                    {["asyncio" := am]} module_keys !! k =
    if decide (k ∈ module_keys) then Some (g k)
    else if decide (k = "asyncio") then Some am else None).
  { rewrite foldr_insert_lookup. case_decide; [done|].
    rewrite lookup_singleton. case_decide as H1; case_decide as H2; congruence. }
  destruct local as [l|]; [|exact Hbase].
  destruct (l !! k) as [v|] eqn:Hl.
  - by apply lookup_union_Some_l.
  - rewrite lookup_union_r by exact Hl. exact Hbase.
Qed.

(** The interactive thread writes the banner first, verbatim when one is
    given (the empty string included) and the default text when
    [banner is None].  The prompt echo [ps1 + "import asyncio"] follows
    unless the [PYTHONSTARTUP] script fails, in which case the banner is
    the only output of [run]. *)
Theorem repl_thread_writes_banner_first p b sc v pl ps le w :
  exists rest,
    out (repl_thread_run p b sc v pl ps le w) = (out w ++ banner_text b v pl :: rest)%list /\
    (if snd (run_startup sc (write (banner_text b v pl) w))
     then exists rest', rest = (ps ++ "import asyncio
") :: rest'
     else rest = []).
Proof.
  unfold repl_thread_run, run_startup, banner_text.
  destruct sc as [sc|]; [destruct (sc _) as [ns [|]]|];
    destruct p; try destruct le; cbn; rewrite <- ?app_assoc; cbn;
    eexists; (split; [reflexivity|]); try reflexivity; eexists; reflexivity.
Qed.


Lemma insert_pending_kept {A} (m : gmap nat A) k x y (P : A -> Prop) :
  m !! k = Some x -> ~ P x ->
  forall j z, m !! j = Some z -> P z -> <[k := y]> m !! j = Some z.
Proof.
  intros Hk HP j z Hj Hz. rewrite lookup_insert. case_decide as E; [|done].
  subst. rewrite Hk in Hj. injection Hj as ->. contradiction.
Qed.

Lemma insert_existing_keys {A} (m : gmap nat A) k x y j :
  m !! k = Some x -> is_Some (<[k := y]> m !! j) -> is_Some (m !! j).
Proof.
  intros Hk. rewrite lookup_insert. case_decide as E; [subst; by rewrite Hk|done].
Qed.

Lemma evolves_refl w : evolves w w.
Proof. constructor; auto. Qed.

Lemma evolves_trans w1 w2 w3 : evolves w1 w2 -> evolves w2 w3 -> evolves w1 w3.
Proof.
  intros [N1 F1 T1 K1 D1] [N2 F2 T2 K2 D2]. constructor.
  - lia.
  - intros k Hk. destruct (F2 k Hk) as [H|H]; [|right; lia].
    destruct (F1 k H) as [H'|H']; [by left|right; lia].
  - intros k Hk. destruct (T2 k Hk) as [H|H]; [|right; lia].
    destruct (T1 k H) as [H'|H']; [by left|right; lia].
  - eauto.
  - eauto.
Qed.

(** Replacing the futures by an insert at a pending future. *)
Lemma evolves_settle w f s :
  futures w !! f = Some FPending ->
  evolves w (with_futures (<[f := s]> (futures w)) w).
Proof.
  intros Hf. constructor; cbn; auto.
  - intros k Hk. left. eapply insert_existing_keys; eauto.
  - intros g s' Hg Hs'. eapply (insert_pending_kept _ _ _ _ (fun s => s <> FPending)); eauto.
Qed.

Lemma set_result_evolves f v w w' :
  set_result f v w = Some w' -> evolves w w'.
Proof. intros [Hf ->]%set_result_Some. by apply evolves_settle. Qed.

Lemma set_exception_evolves f e w w' :
  set_exception f e w = Some w' -> evolves w w'.
Proof. intros [Hf ->]%set_exception_Some. by apply evolves_settle. Qed.

Lemma copy_state_evolves f r w w' :
  copy_state f r w = Some w' -> evolves w w'.
Proof.
  unfold copy_state. destruct (futures w !! f) as [[]|] eqn:Hf; intros H; try discriminate;
    injection H as <-; [by apply evolves_settle|apply evolves_refl].
Qed.

Lemma task_finish_evolves t r w w' :
  task_finish t r w = Some w' -> evolves w w'.
Proof.
  unfold task_finish. destruct (tasks w !! t) as [tk|] eqn:Ht; [|discriminate].
  destruct (t_state tk) eqn:Hst; try discriminate.
  assert (E : evolves w (with_tasks (<[t := mkTask (t_coro tk) (t_context tk) r (t_chained tk)]>
                                       (tasks w)) w)).
  { constructor; cbn; auto.
    - intros k Hk. left. eapply insert_existing_keys; eauto.
    - intros t' tk' Ht' Hd. eapply (insert_pending_kept _ _ _ _ (fun tk => t_state tk <> TPending));
        eauto. }
  destruct (t_chained tk) as [f|].
  - intros H. eapply evolves_trans; [exact E|]. eapply copy_state_evolves; exact H.
  - intros [= <-]. exact E.
Qed.

Lemma ids_below_fresh w :
  ids_below w -> futures w !! next_id w = None /\ tasks w !! next_id w = None.
Proof.
  intros [HF HT]. split.
  - destruct (futures w !! next_id w) eqn:E; [|done]. apply HF in E. lia.
  - destruct (tasks w !! next_id w) eqn:E; [|done]. apply HT in E. lia.
Qed.

Lemma create_task_evolves coro ctx w t w1 :
  tasks w !! next_id w = None -> create_task coro ctx w = (t, w1) ->
  t = next_id w /\ evolves w w1 /\
  tasks w1 !! t = Some (mkTask coro ctx TPending None) /\ next_id w1 = S t.
Proof.
  intros Hfree [= <- <-]. cbn. rewrite lookup_insert_eq. split; [done|]. split; [|done].
  constructor; cbn; auto.
  - intros k Hk. rewrite lookup_insert in Hk. case_decide; [right; lia|by left].
  - intros t' tk Ht' _. rewrite lookup_insert. case_decide; [|done]. subst. congruence.
Qed.

Lemma chain_future_evolves t f w tk :
  tasks w !! t = Some tk -> t_state tk = TPending -> evolves w (chain_future t f w).
Proof.
  intros Ht Hp. unfold chain_future. rewrite Ht. constructor; cbn; auto.
  - intros k Hk. left. eapply insert_existing_keys; eauto.
  - intros t' tk' Ht' Hd. eapply (insert_pending_kept _ _ _ _ (fun tk => t_state tk <> TPending));
      [exact Ht| |exact Ht'|exact Hd]. intros Hn. exact (Hn Hp).
Qed.

Lemma with_fields_evolves w w' :
  next_id w' = next_id w -> futures w' = futures w -> tasks w' = tasks w -> evolves w w'.
Proof. intros Hn Hf Ht. constructor; rewrite ?Hn, ?Hf, ?Ht; auto. Qed.

Lemma callback_evolves c f so w w' :
  tasks w !! next_id w = None -> callback c f so w = Some w' -> evolves w w'.
Proof.
  intros Hfree. unfold callback. destruct (c (locals w)) as [ns r].
  set (w0 := with_locals ns w).
  assert (E0 : evolves w w0) by (by apply with_fields_evolves).
  assert (Hfree0 : tasks w0 !! next_id w0 = None) by exact Hfree.
  destruct r as [v|e].
  - destruct (negb (iscoroutine v)).
    + intros H. eapply evolves_trans; [exact E0|]. eapply set_result_evolves; exact H.
    + destruct so as [|e|e].
      * destruct (create_task v (context w0) w0) as [t w1] eqn:Hct.
        destruct (create_task_evolves _ _ _ _ _ Hfree0 Hct) as (-> & E1 & Ht & _).
        intros [= <-]. eapply evolves_trans; [exact E0|]. eapply evolves_trans; [exact E1|].
        eapply evolves_trans;
          [|apply (chain_future_evolves _ _ (with_repl_future (Some (next_id w0)) w1) _ Ht);
            reflexivity].
        by apply with_fields_evolves.
      * intros H. eapply evolves_trans; [exact E0|]. eapply set_exception_evolves; exact H.
      * destruct (create_task v (context w0) w0) as [t w1] eqn:Hct.
        destruct (create_task_evolves _ _ _ _ _ Hfree0 Hct) as (-> & E1 & Ht & _).
        intros H. eapply evolves_trans; [exact E0|]. eapply evolves_trans; [exact E1|].
        eapply evolves_trans; [|eapply set_exception_evolves; exact H].
        by apply with_fields_evolves.
  - destruct e as [code| | |msg].
    + intros [= <-]. eapply evolves_trans; [exact E0|]. by apply with_fields_evolves.
    + intros H. eapply evolves_trans; [exact E0|].
      eapply evolves_trans; [|eapply set_exception_evolves; exact H].
      by apply with_fields_evolves.
    + intros H. eapply evolves_trans; [exact E0|]. eapply set_exception_evolves; exact H.
    + intros H. eapply evolves_trans; [exact E0|]. eapply set_exception_evolves; exact H.
Qed.

Lemma runcode_except_fields e w :
  next_id (runcode_except e w) = next_id w /\ futures (runcode_except e w) = futures w /\
  tasks (runcode_except e w) = tasks w.
Proof. destruct e; cbn; try (destruct (truthy _)); cbn; auto. Qed.

Lemma step_evolves w w' : ids_below w -> step w w' -> evolves w w'.
Proof.
  intros Hids Hs. destruct (ids_below_fresh w Hids) as [HfF HfT].
  destruct Hs as [c w Hw|so w w' H|t r ns w w' Hr H|w w' H|w w' ov H|p b sc v pl ps le w].
  - constructor; cbn.
    + lia.
    + intros k Hk. rewrite lookup_insert in Hk. case_decide; [right; lia|by left].
    + intros k Hk. by left.
    + intros f s Hf Hs. rewrite lookup_insert. case_decide; [subst; congruence|done].
    + done.
  - revert H. unfold run_once. destruct (ready w) as [|h q]; [discriminate|].
    intros H. eapply evolves_trans; [|eapply (callback_evolves _ _ _ (with_ready q w)); [exact HfT|exact H]].
    by apply with_fields_evolves.
  - eapply evolves_trans; [|eapply task_finish_evolves; exact H]. by apply with_fields_evolves.
  - revert H. unfold on_driver_interrupt. cbn.
    destruct (repl_future w) as [t|];
      [destruct (tasks w !! t) as [tk|]; [destruct (negb (task_is_done tk))|]|].
    + intros H. eapply evolves_trans; [|eapply task_finish_evolves; exact H].
      by apply with_fields_evolves.
    + intros [= <-]. by apply with_fields_evolves.
    + intros [= <-]. by apply with_fields_evolves.
    + intros [= <-]. by apply with_fields_evolves.
  - revert H. unfold runcode_resume. destruct (waiting w) as [f|]; [|discriminate].
    destruct (futures w !! f) as [[]|]; try discriminate; intros [= <- _];
      try (destruct (runcode_except_fields e (with_waiting None w)) as (? & ? & ?));
      try (destruct (runcode_except_fields CancelledError (with_waiting None w)) as (? & ? & ?));
      by apply with_fields_evolves.
  - unfold repl_thread_run, run_startup. apply with_fields_evolves;
      destruct sc as [sc|]; try destruct (sc _) as [ns [|]];
      destruct p; try destruct le; reflexivity.
Qed.

Lemma ids_below_evolves w w' : ids_below w -> evolves w w' -> ids_below w'.
Proof.
  intros [HF HT] [N FK TK _ _]. split.
  - intros k x Hk. destruct (FK k (mk_is_Some _ _ Hk)) as [[y Hy]|H]; [|lia].
    apply HF in Hy. lia.
  - intros k x Hk. destruct (TK k (mk_is_Some _ _ Hk)) as [[y Hy]|H]; [|lia].
    apply HT in Hy. lia.
Qed.

Lemma ids_below_init ns ctx : ids_below (console_init ns ctx).
Proof. split; apply map_Forall_empty. Qed.

Lemma steps_evolves w w' : ids_below w -> steps w w' -> ids_below w' /\ evolves w w'.
Proof.
  intros Hids Hs. induction Hs as [w|w1 w2 w3 H12 H23 IH].
  - split; [done|apply evolves_refl].
  - assert (E : evolves w1 w2) by (by apply step_evolves).
    destruct (IH (ids_below_evolves _ _ Hids E)) as [Hi E'].
    split; [done|]. eapply evolves_trans; eauto.
Qed.

(** Single assignment: in a session started from [console_init], a
    concurrent future that is finished or cancelled keeps that state for
    the rest of the session. *)
Theorem settled_future_never_changes ns ctx w w' f s :
  steps (console_init ns ctx) w -> futures w !! f = Some s -> s <> FPending ->
  steps w w' -> futures w' !! f = Some s.
Proof.
  intros H0 Hf Hs H1.
  destruct (steps_evolves _ _ (ids_below_init ns ctx) H0) as [Hids _].
  destruct (steps_evolves _ _ Hids H1) as [_ E]. eapply ev_fut_kept; eauto.
Qed.

Lemma settled_future_never_changes_witness :
  futures w_answered !! 0 = Some (FFinishedResult (VInt 42)) /\
  futures (runcode_submit unit_error (with_waiting None w_answered)) !! 0 =
    Some (FFinishedResult (VInt 42)).
Proof.
  assert (H0 : steps (console_init ∅ 7) w_answered).
  { eapply rtc_l; [apply (step_submit unit_value); reflexivity|].
    apply rtc_once. apply (step_callback SpawnOk). vm_compute. reflexivity. }
  assert (Hf : futures w_answered !! 0 = Some (FFinishedResult (VInt 42))).
  { vm_compute. reflexivity. }
  split; [exact Hf|].
  apply (settled_future_never_changes ∅ 7 w_answered _ 0 _ H0 Hf); [discriminate|].
  eapply rtc_l; [apply (step_resume _ _ (Some (VInt 42))); vm_compute; reflexivity|].
  apply rtc_once. apply step_submit. reflexivity.
Defined.

Lemma run_once_submit c so w :
  ready w = [] ->
  run_once so (runcode_submit c w) = callback c (next_id w) so (with_ready [] (runcode_submit c w)).
Proof. intros Hr. unfold run_once. cbn. rewrite Hr. reflexivity. Qed.

Lemma spawn_then_finish c w ns n ns' r :
  ready w = [] -> c (locals w) = (ns, Returned (VCoro n)) ->
  exists w1 w2,
    run_once SpawnOk (runcode_submit c w) = Some w1 /\
    repl_future w1 = Some (S (next_id w)) /\
    tasks w1 !! S (next_id w) = Some (mkTask (VCoro n) (context w) TPending (Some (next_id w))) /\
    task_finish (S (next_id w)) r (with_locals ns' w1) = Some w2 /\
    waiting w2 = Some (next_id w) /\ futures w2 !! next_id w = Some (fstate_of r) /\
    locals w2 = ns' /\ out w2 = out w /\ stopped w2 = stopped w /\
    return_code w2 = return_code w /\ keyboard_interrupted w2 = keyboard_interrupted w.
Proof.
  intros Hr Hc. rewrite run_once_submit by exact Hr.
  unfold callback. cbn. rewrite Hc. cbn.
  unfold chain_future. cbn. rewrite lookup_insert_eq. cbn.
  eexists _, _. split; [reflexivity|]. split; [reflexivity|].
  split; [cbn; by rewrite insert_insert_eq, lookup_insert_eq|].
  unfold task_finish. cbn. rewrite insert_insert_eq, lookup_insert_eq. cbn.
  unfold copy_state. cbn. rewrite lookup_insert_eq. cbn.
  split; [reflexivity|]. cbn. rewrite lookup_insert_eq. repeat split.
Qed.

(** A statement whose invocation returns a coroutine (a top-level
    [await]): the callback runs it as a task in the console's context and
    chains it to the statement's future; when the task returns [v] (its
    coroutine having left the namespace [ns']), [runcode] returns [v],
    nothing is written and the loop keeps running. *)
Theorem awaited_statement_returns_value c w ns n ns' v :
  ready w = [] -> c (locals w) = (ns, Returned (VCoro n)) ->
  exists w1 w2 w3,
    run_once SpawnOk (runcode_submit c w) = Some w1 /\
    tasks w1 !! S (next_id w) = Some (mkTask (VCoro n) (context w) TPending (Some (next_id w))) /\
    task_finish (S (next_id w)) (TResult v) (with_locals ns' w1) = Some w2 /\
    runcode_resume w2 = Some (w3, Some v) /\
    locals w3 = ns' /\ out w3 = out w /\ stopped w3 = stopped w /\ waiting w3 = None.
Proof.
  intros Hr Hc.
  destruct (spawn_then_finish c w ns n ns' (TResult v) Hr Hc)
    as (w1 & w2 & H1 & _ & Ht & H2 & Hw & Hf & Hl & Ho & Hs & _).
  exists w1, w2, (with_waiting None w2). repeat (split; [done|]).
  unfold runcode_resume. rewrite Hw, Hf. done.
Qed.

Lemma awaited_statement_returns_value_witness :
  ready w_start = [] /\ unit_await (locals w_start) = (∅, Returned (VCoro 0)) /\
  exists w1 w2 w3,
    run_once SpawnOk (runcode_submit unit_await w_start) = Some w1 /\
    tasks w1 !! 1 = Some (mkTask (VCoro 0) 7 TPending (Some 0)) /\
    task_finish 1 (TResult (VInt 5)) (with_locals {["y" := VInt 5]} w1) = Some w2 /\
    runcode_resume w2 = Some (w3, Some (VInt 5)) /\
    locals w3 = {["y" := VInt 5]} /\ out w3 = [] /\ stopped w3 = false /\ waiting w3 = None.
Proof.
  split; [reflexivity|]. split; [reflexivity|].
  exact (awaited_statement_returns_value unit_await w_start ∅ 0 {["y" := VInt 5]} (VInt 5)
           eq_refl eq_refl).
Defined.

(** A statement that raises an ordinary error (neither [SystemExit] nor
    [KeyboardInterrupt]): the error reaches [runcode] through the future,
    which writes a traceback, or the interrupt notice once the console has
    seen a [KeyboardInterrupt]; what the statement did to the namespace
    before raising is kept, and the loop keeps running with the same
    [return_code]. *)
Theorem callback_error_reported c w ns e so :
  ready w = [] -> c (locals w) = (ns, Raised e) ->
  (forall code, e <> SystemExit code) -> e <> KeyboardInterrupt ->
  exists w1 w2,
    run_once so (runcode_submit c w) = Some w1 /\
    runcode_resume w1 = Some (w2, None) /\
    out w2 = (out w ++ [if truthy (keyboard_interrupted w) then interrupt_notice
                        else traceback e])%list /\
    locals w2 = ns /\ stopped w2 = stopped w /\ return_code w2 = return_code w /\
    waiting w2 = None.
Proof.
  intros Hr Hc Hse Hki. rewrite run_once_submit by exact Hr.
  unfold callback. cbn. rewrite Hc.
  destruct e as [code| | |msg]; [by destruct (Hse code)|done| |];
    (cbn; unfold set_exception; cbn; rewrite lookup_insert_eq; cbn;
     eexists _, _; split; [reflexivity|];
     unfold runcode_resume; cbn; rewrite lookup_insert_eq; cbn;
     split; [reflexivity|];
     destruct (truthy (keyboard_interrupted w)); cbn; repeat split).
Qed.

Lemma callback_error_reported_witness :
  ready w_idle_interrupted = [] /\
  unit_error (locals w_idle_interrupted) =
    (locals w_idle_interrupted, Raised (OtherError "ZeroDivisionError")) /\
  exists w1 w2,
    run_once SpawnOk (runcode_submit unit_error w_idle_interrupted) = Some w1 /\
    runcode_resume w1 = Some (w2, None) /\
    out w2 = (out w_idle_interrupted ++
              [if truthy (keyboard_interrupted w_idle_interrupted) then interrupt_notice
               else traceback (OtherError "ZeroDivisionError")])%list /\
    locals w2 = locals w_idle_interrupted /\ stopped w2 = stopped w_idle_interrupted /\
    return_code w2 = return_code w_idle_interrupted /\ waiting w2 = None.
Proof.
  split; [vm_compute; reflexivity|]. split; [reflexivity|].
  apply callback_error_reported; [vm_compute; reflexivity|reflexivity|discriminate|discriminate].
Defined.

(** A statement interrupted while its callback runs: the callback sets
    [keyboard_interrupted] and fails the future, and [runcode] writes the
    interrupt notice; the loop keeps running with the same [return_code]. *)
Theorem callback_interrupt_notice c w ns so :
  ready w = [] -> c (locals w) = (ns, Raised KeyboardInterrupt) ->
  exists w1 w2,
    run_once so (runcode_submit c w) = Some w1 /\
    runcode_resume w1 = Some (w2, None) /\
    out w2 = (out w ++ [interrupt_notice])%list /\
    keyboard_interrupted w2 = Some true /\ stopped w2 = stopped w /\
    return_code w2 = return_code w.
Proof.
  intros Hr Hc. rewrite run_once_submit by exact Hr.
  unfold callback. cbn. rewrite Hc. cbn.
  unfold set_exception. cbn. rewrite lookup_insert_eq. cbn.
  eexists _, _. split; [reflexivity|].
  unfold runcode_resume. cbn. rewrite lookup_insert_eq. cbn.
  split; [reflexivity|]. repeat split.
Qed.

Lemma callback_interrupt_notice_witness :
  ready w_start = [] /\ unit_interrupted (locals w_start) = (∅, Raised KeyboardInterrupt) /\
  exists w1 w2,
    run_once SpawnOk (runcode_submit unit_interrupted w_start) = Some w1 /\
    runcode_resume w1 = Some (w2, None) /\
    out w2 = (out w_start ++ [interrupt_notice])%list /\
    keyboard_interrupted w2 = Some true /\ stopped w2 = stopped w_start /\
    return_code w2 = return_code w_start.
Proof.
  split; [reflexivity|]. split; [reflexivity|].
  exact (callback_interrupt_notice unit_interrupted w_start ∅ SpawnOk eq_refl eq_refl).
Defined.

(** Ctrl-C in the driver while no statement task is pending (none was
    ever created, or the last one is done): only the flag is set; no task
    and no future is touched. *)
Theorem driver_interrupt_when_idle w :
  (forall t tk, repl_future w = Some t -> tasks w !! t = Some tk -> task_is_done tk = true) ->
  on_driver_interrupt w = Some (with_keyboard_interrupted (Some true) w).
Proof.
  intros Hdone. unfold on_driver_interrupt. cbn.
  destruct (repl_future w) as [t|] eqn:Hrf; [|done].
  destruct (tasks w !! t) as [tk|] eqn:Ht; [|done].
  by rewrite (Hdone t tk eq_refl Ht).
Qed.

Lemma driver_interrupt_when_idle_witness :
  repl_future w_task_done = Some 1 /\
  on_driver_interrupt w_task_done = Some (with_keyboard_interrupted (Some true) w_task_done).
Proof.
  split; [vm_compute; reflexivity|].
  apply driver_interrupt_when_idle. intros t tk Hrf Ht.
  vm_compute in Hrf. injection Hrf as <-. vm_compute in Ht. injection Ht as <-.
  reflexivity.
Defined.

(** Ctrl-C in the driver while an awaited statement's task is pending:
    the task is cancelled, the cancellation reaches [runcode] through the
    future, and [runcode] writes the interrupt notice; the loop keeps
    running. *)
Theorem interrupt_during_await_prints_notice c w ns n :
  ready w = [] -> c (locals w) = (ns, Returned (VCoro n)) ->
  exists w1 w2 w3,
    run_once SpawnOk (runcode_submit c w) = Some w1 /\
    on_driver_interrupt w1 = Some w2 /\
    runcode_resume w2 = Some (w3, None) /\
    out w3 = (out w ++ [interrupt_notice])%list /\
    tasks w3 !! S (next_id w) = Some (mkTask (VCoro n) (context w) TCancelled (Some (next_id w))) /\
    keyboard_interrupted w3 = Some true /\ stopped w3 = stopped w.
Proof.
  intros Hr Hc. rewrite run_once_submit by exact Hr.
  unfold callback. cbn. rewrite Hc. cbn.
  unfold chain_future. cbn. rewrite lookup_insert_eq. cbn.
  eexists _, _, _. split; [reflexivity|].
  unfold on_driver_interrupt. cbn. rewrite insert_insert_eq, lookup_insert_eq. cbn.
  unfold task_cancel, task_finish. cbn. rewrite lookup_insert_eq. cbn.
  unfold copy_state. cbn. rewrite lookup_insert_eq. cbn.
  split; [reflexivity|].
  unfold runcode_resume. cbn. rewrite lookup_insert_eq. cbn.
  split; [reflexivity|]. cbn. rewrite insert_insert_eq, lookup_insert_eq.
  repeat split.
Qed.

Lemma interrupt_during_await_prints_notice_witness :
  ready w_start = [] /\ unit_await (locals w_start) = (∅, Returned (VCoro 0)) /\
  exists w1 w2 w3,
    run_once SpawnOk (runcode_submit unit_await w_start) = Some w1 /\
    on_driver_interrupt w1 = Some w2 /\
    runcode_resume w2 = Some (w3, None) /\
    out w3 = (out w_start ++ [interrupt_notice])%list /\
    tasks w3 !! 1 = Some (mkTask (VCoro 0) 7 TCancelled (Some 0)) /\
    keyboard_interrupted w3 = Some true /\ stopped w3 = stopped w_start.
Proof.
  split; [reflexivity|]. split; [reflexivity|].
  exact (interrupt_during_await_prints_notice unit_await w_start ∅ 0 eq_refl eq_refl).
Defined.

(** When [_chain_future] raises after [create_task] succeeded, the error
    goes to the statement's future, but the task already stored in
    [repl_future] is left running, chained to no future; a later Ctrl-C
    in the driver cancels that task and leaves every future as it was. *)
Theorem chain_failure_orphans_task c w ns n e :
  ready w = [] -> c (locals w) = (ns, Returned (VCoro n)) ->
  exists w1 w2,
    run_once (ChainRaises e) (runcode_submit c w) = Some w1 /\
    futures w1 !! next_id w = Some (FFinishedExc e) /\
    repl_future w1 = Some (S (next_id w)) /\
    tasks w1 !! S (next_id w) = Some (mkTask (VCoro n) (context w) TPending None) /\
    on_driver_interrupt w1 = Some w2 /\ futures w2 = futures w1 /\
    tasks w2 !! S (next_id w) = Some (mkTask (VCoro n) (context w) TCancelled None).
Proof.
  intros Hr Hc. rewrite run_once_submit by exact Hr.
  unfold callback. cbn. rewrite Hc. cbn.
  unfold set_exception. cbn. rewrite lookup_insert_eq. cbn.
  eexists _, _. split; [reflexivity|]. cbn.
  rewrite insert_insert_eq, lookup_insert_eq. split; [reflexivity|].
  split; [reflexivity|]. rewrite lookup_insert_eq. split; [reflexivity|].
  unfold on_driver_interrupt. cbn.
  unfold task_cancel, task_finish. cbn. rewrite lookup_insert_eq. cbn.
  split; [reflexivity|]. split; [reflexivity|]. cbn.
  rewrite insert_insert_eq, lookup_insert_eq. reflexivity.
Qed.

Lemma chain_failure_orphans_task_witness :
  ready w_start = [] /\ unit_await (locals w_start) = (∅, Returned (VCoro 0)) /\
  exists w1 w2,
    run_once (ChainRaises (OtherError "RuntimeError")) (runcode_submit unit_await w_start) = Some w1 /\
    futures w1 !! 0 = Some (FFinishedExc (OtherError "RuntimeError")) /\
    repl_future w1 = Some 1 /\
    tasks w1 !! 1 = Some (mkTask (VCoro 0) 7 TPending None) /\
    on_driver_interrupt w1 = Some w2 /\ futures w2 = futures w1 /\
    tasks w2 !! 1 = Some (mkTask (VCoro 0) 7 TCancelled None).
Proof.
  split; [reflexivity|]. split; [reflexivity|].
  exact (chain_failure_orphans_task unit_await w_start ∅ 0 (OtherError "RuntimeError")
           eq_refl eq_refl).
Defined.

(** In a session started from [console_init], a task that is done keeps
    its state (and its chaining) for the rest of the session: neither the
    driver's Ctrl-C nor a later statement touches it. *)
Theorem done_task_never_changes ns ctx w w' t tk :
  steps (console_init ns ctx) w -> tasks w !! t = Some tk -> t_state tk <> TPending ->
  steps w w' -> tasks w' !! t = Some tk.
Proof.
  intros H0 Ht Hd H1.
  destruct (steps_evolves _ _ (ids_below_init ns ctx) H0) as [Hids _].
  destruct (steps_evolves _ _ Hids H1) as [_ E]. eapply ev_task_kept; eauto.
Qed.

Lemma done_task_never_changes_witness :
  tasks w_task_done !! 1 = Some (mkTask (VCoro 0) 7 (TResult VNone) (Some 0)) /\
  tasks (with_keyboard_interrupted (Some true) w_task_done) !! 1 =
    Some (mkTask (VCoro 0) 7 (TResult VNone) (Some 0)).
Proof.
  assert (H0 : steps (console_init ∅ 7) w_task_done).
  { eapply rtc_l; [apply (step_submit unit_await); reflexivity|].
    eapply rtc_l; [apply (step_callback SpawnOk); vm_compute; reflexivity|].
    apply rtc_once. apply (step_task 1 (TResult VNone) ∅); [discriminate|].
    vm_compute. reflexivity. }
  assert (Ht : tasks w_task_done !! 1 = Some (mkTask (VCoro 0) 7 (TResult VNone) (Some 0))).
  { vm_compute. reflexivity. }
  split; [exact Ht|].
  apply (done_task_never_changes ∅ 7 w_task_done _ 1 _ H0 Ht); [discriminate|].
  apply rtc_once. apply step_interrupt. vm_compute. reflexivity.
Defined.

(** A statement raising [SystemExit] in its callback: the loop is asked
    to stop and the future is never settled, so [runcode] stays blocked in
    [future.result()]; the session ends through [interact]'s teardown,
    which passes the exception's code to [sys.exit]. *)
Theorem system_exit_leaves_runcode_blocked c w ns code so exitmsg :
  ready w = [] -> c (locals w) = (ns, Raised (SystemExit code)) ->
  exists w1,
    run_once so (runcode_submit c w) = Some w1 /\
    stopped w1 = true /\ futures w1 !! next_id w = Some FPending /\
    runcode_resume w1 = None /\ snd (interact_finish exitmsg w1) = code.
Proof.
  intros Hr Hc. rewrite run_once_submit by exact Hr.
  unfold callback. cbn. rewrite Hc. cbn.
  eexists _. split; [reflexivity|]. cbn. rewrite ?lookup_insert_eq.
  split; [reflexivity|]. split; [reflexivity|].
  unfold runcode_resume. cbn. rewrite ?lookup_insert_eq. split; reflexivity.
Qed.

Lemma system_exit_leaves_runcode_blocked_witness :
  ready w_start = [] /\ unit_exit 3 (locals w_start) = (∅, Raised (SystemExit (VInt 3))) /\
  exists w1,
    run_once SpawnOk (runcode_submit (unit_exit 3) w_start) = Some w1 /\
    stopped w1 = true /\ futures w1 !! 0 = Some FPending /\
    runcode_resume w1 = None /\ snd (interact_finish None w1) = VInt 3.
Proof.
  split; [reflexivity|]. split; [reflexivity|].
  exact (system_exit_leaves_runcode_blocked (unit_exit 3) w_start ∅ (VInt 3) SpawnOk None
           eq_refl eq_refl).
Defined.
